(** * template.h: symbol table, numeric contexts and test-case ingestion

    A shallow embedding of the C++ header [template.h] of the vectorised
    PairHMM kernel, and the properties of it that its specification states.

    - [ConvertChar]: the static nucleotide-to-code table ([init], [get]).
    - [Ctx]: the two specialisations [Context<double>] and [Context<float>],
      over IEEE-754 binary64 and binary32 values ([spec_float]).
    - [Ingest]: [read_testcase], with [stdin] and the caller's [testcase]
      threaded explicitly and uninitialised memory cells kept apart from
      written ones. *)

From Stdlib Require Import ZArith QArith Ascii String Lia.
From Stdlib Require Import Floats.SpecFloat.
From stdpp Require Import base tactics option list sets.

Local Open Scope Z_scope.

(** ** Machine integers and characters *)

(** Conversion to [uint8_t]: reduction modulo 2^8. *)
Definition to_uint8 (z : Z) : Z := z mod 256.

(** Conversion to a 32-bit [int], two's complement wrap-around. *)
Definition to_int (z : Z) : Z := (z + 2 ^ 31) mod 2 ^ 32 - 2 ^ 31.

(** The unsigned value of a byte. *)
Definition ord (ch : ascii) : Z := Z.of_N (N_of_ascii ch).

(** [(int) ch] for a plain [char], which is signed on the x86 targets that
    [immintrin.h] restricts this header to: bytes from 128 on are negative. *)
Definition char_to_int (ch : ascii) : Z :=
  if ord ch <? 128 then ord ch else ord ch - 256.

(** ** ConvertChar *)

Module ConvertChar.

Definition NUM_DISTINCT_CHARS : Z := 5.
Definition AMBIG_CHAR : Z := 4.

(** [static uint8_t conversionTable[255]]: the number of entries. *)
Definition TABLE_SIZE : nat := 255.

(** The class only declares the table; its out-of-class definition is not
    part of this header.  An object of static storage duration is
    zero-initialised before anything runs, so the table starts as
    [TABLE_SIZE] zero bytes. *)
Definition conversionTable0 : list Z := replicate TABLE_SIZE 0.

(** [conversionTable[ch] = v], the index being the character's code. *)
Definition store (ch : ascii) (v : Z) (conversionTable : list Z) : list Z :=
  <[Z.to_nat (ord ch) := to_uint8 v]> conversionTable.

(** [init()]: the two assertions hold of the two macros, then five stores. *)
Definition init (conversionTable : list Z) : list Z :=
  let t := store "A" 0 conversionTable in
  let t := store "C" 1 t in
  let t := store "T" 2 t in
  let t := store "G" 3 t in
  let t := store "N" 4 t in
  t.

(** [get(input)]: the argument is converted to [uint8_t], then indexes the
    table.  [None] is a read outside the array's [TABLE_SIZE] entries, for
    which C++ defines no result. *)
Definition get (conversionTable : list Z) (input : Z) : option Z :=
  conversionTable !! Z.to_nat (to_uint8 input).

(** [init()] called [n] times in a row. *)
Definition init_times (n : nat) (conversionTable : list Z) : list Z :=
  Nat.iter n init conversionTable.

End ConvertChar.

(** ** Context<double> and Context<float> *)

Module Ctx.

(** IEEE-754 formats: precision and exponent bound of [double] and [float]. *)
Definition prec64 : Z := 53.
Definition emax64 : Z := 1024.
Definition prec32 : Z := 24.
Definition emax32 : Z := 128.

(** The value of an integer in a format, as a conversion [(double) x] or a
    literal such as [10.0] gives it (round to nearest, ties to even). *)
Definition of_Z (prec emax : Z) (z : Z) : spec_float :=
  binary_normalize prec emax z 0 false.

(** The rational a finite float stands for; none for infinities and NaN. *)
Definition SFvalue (f : spec_float) : option Q :=
  match f with
  | S754_zero _ => Some 0%Q
  | S754_finite s m e =>
      Some ((if s then - (Zpos m # 1) else (Zpos m # 1)) * Qpower (2 # 1) e)%Q
  | S754_infinity _ | S754_nan => None
  end.

(** The fields of either specialisation. *)
Record Context : Type := mkContext {
  ph2pr : list spec_float;
  INITIAL_CONSTANT : spec_float;
  LOG10_INITIAL_CONSTANT : spec_float;
  RESULT_THRESHOLD : spec_float
}.

Section Libm.
(** The transcendental functions of the C library, which the header
    calls and does not define: [pow], [log10] on [double] and [powf],
    [log10f] on [float]. *)
Variables (pow : spec_float -> spec_float -> spec_float)
          (log10 : spec_float -> spec_float)
          (powf : spec_float -> spec_float -> spec_float)
          (log10f : spec_float -> spec_float).

(** [ldexp(v, e)] and [ldexpf(v, e)]: scaling by a power of two. *)
Definition ldexp (v : spec_float) (e : Z) : spec_float :=
  SFldexp prec64 emax64 v e.
Definition ldexpf (v : spec_float) (e : Z) : spec_float :=
  SFldexp prec32 emax32 v e.

(** [Context<double>::Context()].  The loop writes [ph2pr[x]] for
    [x = 0 .. 127] in turn; the exponent argument [1020.0] of [ldexp] is
    converted to the [int] 1020. *)
Definition Context_double : Context :=
  let INITIAL_CONSTANT := ldexp (SFone prec64 emax64) 1020 in
  {| ph2pr :=
       (fun x : Z =>
          pow (of_Z prec64 emax64 10)
              (SFdiv prec64 emax64
                     (SFopp (of_Z prec64 emax64 x))
                     (of_Z prec64 emax64 10)))
         <$> seqZ 0 128;
     INITIAL_CONSTANT := INITIAL_CONSTANT;
     LOG10_INITIAL_CONSTANT := log10 INITIAL_CONSTANT;
     RESULT_THRESHOLD := S754_zero false |}.

(** [Context<float>::Context()]. *)
Definition Context_float : Context :=
  let INITIAL_CONSTANT := ldexpf (SFone prec32 emax32) 120 in
  {| ph2pr :=
       (fun x : Z =>
          powf (of_Z prec32 emax32 10)
               (SFdiv prec32 emax32
                      (SFopp (of_Z prec32 emax32 x))
                      (of_Z prec32 emax32 10)))
         <$> seqZ 0 128;
     INITIAL_CONSTANT := INITIAL_CONSTANT;
     LOG10_INITIAL_CONSTANT := log10f INITIAL_CONSTANT;
     RESULT_THRESHOLD := ldexpf (SFone prec32 emax32) (-110) |}.

(** The member functions [LOG10]. *)
Definition LOG10_double (v : spec_float) : spec_float := log10 v.
Definition LOG10_float (v : spec_float) : spec_float := log10f v.
End Libm.

(** The second argument of the power function in the loops of both
    constructors: [-((double) x) / 10.0], and the same in [float]. *)
Definition phred_exponent (prec emax : Z) (x : Z) : spec_float :=
  SFdiv prec emax (SFopp (of_Z prec emax x)) (of_Z prec emax 10).

End Ctx.

(** ** read_testcase *)

Module Ingest.

(** A memory cell: [None] until something is stored in it.  What [malloc]
    returns is a block of such cells. *)
Definition malloc {A : Type} (n : nat) : list (option A) := replicate n None.

(** [buf[x]] as an rvalue.  A cell that was never written, or one past the
    end of the block, has no defined value. *)
Definition load {A : Type} (buf : list (option A)) (x : nat) : option A :=
  default None (buf !! x).

(** [typedef struct { ... } testcase].  Every pointer field is modelled by
    the block it points to (the empty block before any allocation). *)
Record testcase : Type := mkTestcase {
  rslen : Z;
  haplen : Z;
  q : list (option Z);
  i : list (option Z);
  d : list (option Z);
  c : list (option Z);
  hap : list (option ascii);
  rs : list (option ascii);
  ihap : list (option Z);
  irs : list (option Z)
}.

Definition NUL : ascii := ascii_of_nat 0.
Definition newline : ascii := ascii_of_nat 10.

(** [isspace] in the C locale: space and the five controls 9 to 13. *)
Definition isspace (ch : ascii) : bool :=
  (ord ch =? 32) || ((9 <=? ord ch) && (ord ch <=? 13)).

(** *** getline *)

(** The bytes up to and including the first newline, or all of them when
    there is none, and what remains of the stream. *)
Fixpoint read_line (s : list ascii) : list ascii * list ascii :=
  match s with
  | [] => ([], [])
  | ch :: s' =>
      if Ascii.eqb ch newline then ([ch], s')
      else let '(l, r) := read_line s' in (ch :: l, r)
  end.

(** [getline(&line, &size, stdin)]: [None] stands for the result -1 on an
    exhausted stream; otherwise the line and the rest of the stream. *)
Definition getline (stdin : list ascii) : option (list ascii * list ascii) :=
  match stdin with
  | [] => None
  | _ => Some (read_line stdin)
  end.

(** *** sscanf *)

(** The line as a C string: it ends at the first NUL byte. *)
Fixpoint cstring (s : list ascii) : list ascii :=
  match s with
  | [] => []
  | ch :: s' => if Ascii.eqb ch NUL then [] else ch :: cstring s'
  end.

Fixpoint skip_space (s : list ascii) : list ascii :=
  match s with
  | [] => []
  | ch :: s' => if isspace ch then skip_space s' else s
  end.

(** The longest prefix without white space, and the rest. *)
Fixpoint take_word (s : list ascii) : list ascii * list ascii :=
  match s with
  | [] => ([], [])
  | ch :: s' =>
      if isspace ch then ([], s)
      else let '(w, r) := take_word s' in (ch :: w, r)
  end.

(** One [%s] conversion: leading white space is skipped, then a non-empty
    word is read; at the end of the string the conversion fails. *)
Definition scan_s (s : list ascii) : option (list ascii * list ascii) :=
  match skip_space s with
  | [] => None
  | s' => Some (take_word s')
  end.

(** The words that up to [n] conversions [%s] in a row assign.  The white
    space directives between them skip what the next [%s] would skip. *)
Fixpoint scan_words (n : nat) (s : list ascii) : list (list ascii) :=
  match n with
  | O => []
  | S n' =>
      match scan_s s with
      | None => []
      | Some (w, r) => w :: scan_words n' r
      end
  end.

(** What [%s] stores through its argument: the word and a closing NUL, at
    the start of the block; the cells behind stay as they are.  The block is
    taken to have room for them, as every block of [read_testcase] has. *)
Definition store_word (w : list ascii) (buf : list (option ascii))
  : list (option ascii) :=
  (Some <$> (w ++ [NUL])) ++ drop (length w + 1) buf.

(** The block behind the [k]-th argument once the words are assigned. *)
Definition assigned (words : list (list ascii)) (k : nat)
           (buf : list (option ascii)) : list (option ascii) :=
  match words !! k with
  | Some w => store_word w buf
  | None => buf
  end.

(** The value of [sscanf]: the number of assignments, or [EOF] when the
    input ends before the first one. *)
Definition sscanf_result (words : list (list ascii)) : Z :=
  match words with
  | [] => -1
  | _ => Z.of_nat (length words)
  end.

(** [strlen]: the number of defined bytes before the first NUL. *)
Fixpoint strlen (buf : list (option ascii)) : nat :=
  match buf with
  | Some ch :: buf' => if Ascii.eqb ch NUL then O else S (strlen buf')
  | _ => O
  end.

(** [for (x = 0; x < n; x++) body]. *)
Definition for_upto {S : Type} (n : Z) (body : nat -> S -> S) (s : S) : S :=
  foldl (fun s x => body x s) s (seq 0 (Z.to_nat n)).

Section ReadTestcase.
(** [int normalize(char c)] is declared here and defined elsewhere. *)
Variable normalize : ascii -> Z.

(** The size [getline] reports for the block it allocated for a line of
    the given length; it is larger than the line, which it holds with
    its closing NUL. *)
Variable line_size : nat -> nat.

(** The body of the loop over the read. *)
Definition read_body (q' i' d' c' : list (option ascii)) (x : nat)
           (tc : testcase) : testcase :=
  let _q := normalize <$> load q' x in
  let _i := normalize <$> load i' x in
  let _d := normalize <$> load d' x in
  let _c := normalize <$> load c' x in
  {| rslen := rslen tc;
     haplen := haplen tc;
     q := <[x := (fun v => if v <? 6 then 6 else v) <$> _q]> (q tc);
     i := <[x := _i]> (i tc);
     d := <[x := _d]> (d tc);
     c := <[x := _c]> (c tc);
     hap := hap tc;
     rs := rs tc;
     ihap := ihap tc;
     irs := <[x := char_to_int <$> load (rs tc) x]> (irs tc) |}.

(** The body of the loop over the haplotype. *)
Definition hap_body (x : nat) (tc : testcase) : testcase :=
  {| rslen := rslen tc;
     haplen := haplen tc;
     q := q tc; i := i tc; d := d tc; c := c tc;
     hap := hap tc;
     rs := rs tc;
     ihap := <[x := char_to_int <$> load (hap tc) x]> (ihap tc);
     irs := irs tc |}.

(** [read_testcase(tc)]: the value returned, the caller's [*tc] and the
    stream after the call. *)
Definition read_testcase (tc : testcase) (stdin : list ascii)
  : Z * testcase * list ascii :=
  match getline stdin with
  | None => (-1, tc, stdin)
  | Some (line, rest) =>
      let size := line_size (length line) in
      let words := scan_words 6 (cstring line) in
      let q' := assigned words 2 (malloc size) in
      let i' := assigned words 3 (malloc size) in
      let d' := assigned words 4 (malloc size) in
      let c' := assigned words 5 (malloc size) in
      let tc :=
        {| rslen := rslen tc;
           haplen := haplen tc;
           q := q tc; i := i tc; d := d tc; c := c tc;
           hap := assigned words 0 (malloc size);
           rs := assigned words 1 (malloc size);
           ihap := malloc size;
           irs := malloc size |} in
      if negb (sscanf_result words =? 6) then (-1, tc, rest)
      else
        let haplen := to_int (Z.of_nat (strlen (hap tc))) in
        let rslen := to_int (Z.of_nat (strlen (rs tc))) in
        let tc :=
          {| rslen := rslen;
             haplen := haplen;
             q := malloc (Z.to_nat rslen);
             i := malloc (Z.to_nat rslen);
             d := malloc (Z.to_nat rslen);
             c := malloc (Z.to_nat rslen);
             hap := hap tc;
             rs := rs tc;
             ihap := malloc (Z.to_nat haplen);
             irs := malloc (Z.to_nat rslen) |} in
        let tc := for_upto rslen (read_body q' i' d' c') tc in
        let tc := for_upto haplen hap_body tc in
        (0, tc, rest)
  end.
End ReadTestcase.

(** The value [read_testcase] returns, and the caller's [*tc] after it. *)
Definition result {T S : Type} (r : Z * T * S) : Z := r.1.1.
Definition tc_after {T S : Type} (r : Z * T * S) : T := r.1.2.

(** What is left of the stream after the call. *)
Definition stdin_after {T S : Type} (r : Z * T * S) : S := r.2.


(** A [testcase] none of whose pointers has been set. *)
Definition empty_testcase : testcase :=
  {| rslen := 0; haplen := 0; q := []; i := []; d := []; c := [];
     hap := []; rs := []; ihap := []; irs := [] |}.

(** For running the function on examples: a decoder of the kind the
    declaration of [normalize] stands for (the character's offset from
    ['!'], so that ['!'] decodes to 0), the smallest block [getline] may
    allocate, and a line of text from its content. *)
Definition phred33 (ch : ascii) : Z := char_to_int ch - 33.
Definition line_size_min (n : nat) : nat := S n.
Definition text (s : string) : list ascii :=
  list_ascii_of_string s ++ [newline].

End Ingest.

(** ** Properties of ConvertChar *)

Module ConvertCharFacts.
Import ConvertChar.

Lemma length_store ch v t : length (store ch v t) = length t.
Proof. unfold store. apply length_insert. Qed.

Lemma length_init t : length (init t) = length t.
Proof. unfold init. cbv zeta. by rewrite !length_store. Qed.

Lemma length_init_times n t : length (init_times n t) = length t.
Proof.
  induction n as [|n IH]; [done|].
  unfold init_times in *. simpl. by rewrite length_init.
Qed.

Lemma get_store_eq ch v t :
  (Z.to_nat (ord ch) < length t)%nat ->
  get (store ch v t) (ord ch) = Some (to_uint8 v).
Proof.
  intros Hlt. unfold get, store.
  assert (Hord : to_uint8 (ord ch) = ord ch).
  { unfold to_uint8, ord. apply Z.mod_small.
    pose proof (N_ascii_bounded ch). lia. }
  rewrite Hord. by apply list_lookup_insert_eq.
Qed.

Lemma get_store_ne ch v t b :
  to_uint8 b <> ord ch ->
  get (store ch v t) b = get t b.
Proof.
  intros Hne. unfold get, store.
  apply list_lookup_insert_ne.
  assert (0 <= ord ch) by (unfold ord; lia).
  assert (0 <= to_uint8 b) by (unfold to_uint8; apply Z.mod_pos_bound; lia).
  lia.
Qed.

(** The five populated entries, for a table of the declared size. *)
Lemma get_init_letters t :
  length t = TABLE_SIZE ->
  get (init t) (ord "A") = Some 0 /\
  get (init t) (ord "C") = Some 1 /\
  get (init t) (ord "T") = Some 2 /\
  get (init t) (ord "G") = Some 3 /\
  get (init t) (ord "N") = Some 4.
Proof.
  intros Hlen. unfold init. cbv zeta.
  repeat split.
  all: repeat (rewrite get_store_ne by (vm_compute; discriminate)).
  all: rewrite get_store_eq; [reflexivity|].
  all: rewrite ?length_store, Hlen; vm_compute; lia.
Qed.

(** Every other entry keeps the value it had. *)
Lemma get_init_other t b :
  to_uint8 b <> ord "A" -> to_uint8 b <> ord "C" -> to_uint8 b <> ord "T" ->
  to_uint8 b <> ord "G" -> to_uint8 b <> ord "N" ->
  get (init t) b = get t b.
Proof.
  intros HA HC HT HG HN. unfold init. cbv zeta.
  by rewrite !get_store_ne.
Qed.

(** A second [init()] changes nothing. *)
Lemma init_idempotent t : init (init t) = init t.
Proof.
  unfold init at 1. cbv zeta. unfold init, store. cbv zeta.
  change (Z.to_nat (ord "A")) with 65%nat.
  change (Z.to_nat (ord "C")) with 67%nat.
  change (Z.to_nat (ord "T")) with 84%nat.
  change (Z.to_nat (ord "G")) with 71%nat.
  change (Z.to_nat (ord "N")) with 78%nat.
  apply list_eq. intros k.
  destruct (decide (k < length t)%nat) as [Hk|Hk].
  - destruct (decide (k = 78%nat)) as [->|];
      [by rewrite !list_lookup_insert_eq by (rewrite ?length_insert; lia)|].
    rewrite (list_lookup_insert_ne _ 78) by lia.
    rewrite (list_lookup_insert_ne _ 78 k) by lia.
    destruct (decide (k = 71%nat)) as [->|];
      [by rewrite !list_lookup_insert_eq by (rewrite ?length_insert; lia)|].
    rewrite (list_lookup_insert_ne _ 71) by lia.
    rewrite (list_lookup_insert_ne _ 71 k) by lia.
    destruct (decide (k = 84%nat)) as [->|];
      [by rewrite !list_lookup_insert_eq by (rewrite ?length_insert; lia)|].
    rewrite (list_lookup_insert_ne _ 84) by lia.
    rewrite (list_lookup_insert_ne _ 84 k) by lia.
    destruct (decide (k = 67%nat)) as [->|];
      [by rewrite !list_lookup_insert_eq by (rewrite ?length_insert; lia)|].
    rewrite (list_lookup_insert_ne _ 67) by lia.
    rewrite (list_lookup_insert_ne _ 67 k) by lia.
    destruct (decide (k = 65%nat)) as [->|];
      [by rewrite !list_lookup_insert_eq by (rewrite ?length_insert; lia)|].
    rewrite (list_lookup_insert_ne _ 65) by lia.
    by rewrite !list_lookup_insert_ne by lia.
  - rewrite !lookup_ge_None_2; [done| |]; rewrite ?length_insert; lia.
Qed.

Lemma init_times_succ n t : init_times (S n) t = init t.
Proof.
  induction n as [|n IH]; [done|].
  change (init_times (S (S n)) t) with (init (init_times (S n) t)).
  by rewrite IH, init_idempotent.
Qed.

End ConvertCharFacts.

Module ConvertCharClaims.
Import ConvertChar ConvertCharFacts.

(** A byte below the table's size is read inside the table. *)
Lemma get_in_bounds t b :
  length t = TABLE_SIZE -> 0 <= to_uint8 b < 255 -> is_Some (get t b).
Proof.
  intros Hlen Hb. unfold get. apply lookup_lt_is_Some.
  rewrite Hlen. unfold TABLE_SIZE. lia.
Qed.

(** C7 (fails on the code): [get] does not read inside its table for every
    byte.  The table has 255 entries, indices 0 to 254, so for the byte 255
    the read is one past the end, however often [init()] has run. *)
Theorem get_255_out_of_bounds (n : nat) :
  to_uint8 255 = 255 /\
  length (init_times n conversionTable0) = 255%nat /\
  get (init_times n conversionTable0) 255 = None.
Proof.
  split; [reflexivity|].
  assert (Hlen : length (init_times n conversionTable0) = 255%nat).
  { rewrite length_init_times. unfold conversionTable0.
    by rewrite length_replicate. }
  split; [exact Hlen|].
  unfold get. apply lookup_ge_None_2. rewrite Hlen.
  change (to_uint8 255) with 255. lia.
Qed.

(** C9: after [init()], on a table of the declared size, the letters A, C,
    T, G, N have the codes 0, 1, 2, 3, 4; the five codes are pairwise
    distinct and N has the ambiguous code [AMBIG_CHAR]. *)
Theorem init_codes (t : list Z) :
  length t = TABLE_SIZE ->
  get (init t) (ord "A") = Some 0 /\
  get (init t) (ord "C") = Some 1 /\
  get (init t) (ord "T") = Some 2 /\
  get (init t) (ord "G") = Some 3 /\
  get (init t) (ord "N") = Some 4 /\
  get (init t) (ord "N") = Some AMBIG_CHAR /\
  NoDup [get (init t) (ord "A"); get (init t) (ord "C");
         get (init t) (ord "T"); get (init t) (ord "G");
         get (init t) (ord "N")].
Proof.
  intros Hlen.
  destruct (get_init_letters t Hlen) as (HA & HC & HT & HG & HN).
  rewrite HA, HC, HT, HG, HN.
  repeat split; try reflexivity.
  repeat (apply NoDup_cons; split;
          [rewrite ?elem_of_cons, elem_of_nil; intuition discriminate|]).
  apply NoDup_nil_2.
Qed.

Lemma init_codes_witness :
  length conversionTable0 = TABLE_SIZE /\
  get (init conversionTable0) (ord "N") = Some AMBIG_CHAR.
Proof.
  split; [reflexivity|].
  apply (init_codes conversionTable0). reflexivity.
Defined.

(** C10: once [init()] has run on the zero-initialised static table, every
    byte below 255 other than A, C, T, G, N reads as 0, the very code that
    A has. *)
Theorem get_unpopulated_is_zero (n : nat) (b : Z) :
  (0 < n)%nat ->
  0 <= b < 255 ->
  b <> ord "A" -> b <> ord "C" -> b <> ord "T" ->
  b <> ord "G" -> b <> ord "N" ->
  get (init_times n conversionTable0) b = Some 0 /\
  get (init_times n conversionTable0) b =
    get (init_times n conversionTable0) (ord "A").
Proof.
  intros Hn Hb HA HC HT HG HN.
  destruct n as [|n]; [lia|]. rewrite init_times_succ.
  assert (Hu : to_uint8 b = b) by (unfold to_uint8; apply Z.mod_small; lia).
  assert (Hget : get (init conversionTable0) b = Some 0).
  { rewrite get_init_other by (rewrite Hu; assumption).
    unfold get, conversionTable0, TABLE_SIZE. rewrite Hu.
    apply lookup_replicate_2. lia. }
  split; [exact Hget|].
  rewrite Hget. symmetry.
  apply (get_init_letters conversionTable0). reflexivity.
Qed.

Lemma get_unpopulated_is_zero_witness :
  get (init_times 1 conversionTable0) (ord "B") = Some 0 /\
  get (init_times 1 conversionTable0) (ord "B") =
    get (init_times 1 conversionTable0) (ord "A").
Proof.
  apply (get_unpopulated_is_zero 1 (ord "B"));
    [lia | by vm_compute | discriminate ..].
Defined.

End ConvertCharClaims.

(** ** Properties of the numeric contexts *)

Module CtxFacts.
Import Ctx.

Section Libm.
Variables (pow : spec_float -> spec_float -> spec_float)
          (log10 : spec_float -> spec_float)
          (powf : spec_float -> spec_float -> spec_float)
          (log10f : spec_float -> spec_float).

(** Both tables have 128 entries. *)
Lemma length_ph2pr_double : length (ph2pr (Context_double pow log10)) = 128%nat.
Proof. reflexivity. Qed.

Lemma length_ph2pr_float : length (ph2pr (Context_float powf log10f)) = 128%nat.
Proof. reflexivity. Qed.

(** Entry [x] of either table is the library's power function applied to
    ten and to the format's own quotient [-x / 10]. *)
Lemma ph2pr_double_lookup (x : nat) :
  (x < 128)%nat ->
  ph2pr (Context_double pow log10) !! x =
  Some (pow (of_Z prec64 emax64 10)
            (SFdiv prec64 emax64 (SFopp (of_Z prec64 emax64 (Z.of_nat x)))
                   (of_Z prec64 emax64 10))).
Proof.
  intros Hx. unfold Context_double. cbn [ph2pr].
  rewrite list_lookup_fmap, lookup_seqZ_lt by lia.
  reflexivity.
Qed.

Lemma ph2pr_float_lookup (x : nat) :
  (x < 128)%nat ->
  ph2pr (Context_float powf log10f) !! x =
  Some (powf (of_Z prec32 emax32 10)
             (SFdiv prec32 emax32 (SFopp (of_Z prec32 emax32 (Z.of_nat x)))
                    (of_Z prec32 emax32 10))).
Proof.
  intros Hx. unfold Context_float. cbn [ph2pr].
  rewrite list_lookup_fmap, lookup_seqZ_lt by lia.
  reflexivity.
Qed.

(** The initial constants are the exact powers of two 2^1020 and 2^120. *)
Lemma INITIAL_CONSTANT_double :
  INITIAL_CONSTANT (Context_double pow log10)
  = S754_finite false (2 ^ 52) 968.
Proof. reflexivity. Qed.

Lemma INITIAL_CONSTANT_float :
  INITIAL_CONSTANT (Context_float powf log10f)
  = S754_finite false (2 ^ 23) 97.
Proof. reflexivity. Qed.

(** C6: the threshold of the double context is exactly (positive) zero;
    that of the float context is the float of value 2^-110, which is
    strictly positive. *)
Theorem RESULT_THRESHOLD_values :
  RESULT_THRESHOLD (Context_double pow log10) = S754_zero false /\
  SFvalue (RESULT_THRESHOLD (Context_double pow log10)) = Some 0%Q /\
  exists v : Q,
    SFvalue (RESULT_THRESHOLD (Context_float powf log10f)) = Some v /\
    (v == Qpower (2 # 1) (-110))%Q /\
    (0 < v)%Q.
Proof.
  split; [reflexivity|]. split; [reflexivity|].
  eexists. split; [reflexivity|].
  split; vm_compute; reflexivity.
Qed.
End Libm.

End CtxFacts.

(** ** Properties of read_testcase *)

Module IngestFacts.
Import Ingest.

(** *** Machine integers *)

Lemma to_int_le z : 0 <= z -> to_int z <= z.
Proof.
  intros Hz. unfold to_int.
  pose proof (Z.mod_le (z + 2 ^ 31) (2 ^ 32)). lia.
Qed.

(** *** Blocks and loops *)

Lemma load_malloc {A : Type} (n x : nat) : load (@malloc A n) x = None.
Proof.
  unfold load, malloc.
  destruct (replicate n None !! x) as [o|] eqn:E; [|done].
  by apply lookup_replicate_1 in E as [-> _].
Qed.

(** A loop that stores [f x] at every index below [n] of a block with at
    least [n] cells. *)
Lemma foldl_insert_seq {A : Type} (f : nat -> A) (a : list A) (n : nat) :
  (n <= length a)%nat ->
  foldl (fun a x => <[x := f x]> a) a (seq 0 n) = (f <$> seq 0 n) ++ drop n a.
Proof.
  induction n as [|n IH]; intros Hn.
  - by rewrite drop_0.
  - rewrite seq_S, foldl_snoc, fmap_snoc, IH by lia. simpl.
    destruct (lookup_lt_is_Some_2 a n) as [y Hy]; [lia|].
    rewrite insert_app_r_alt by (rewrite length_fmap, length_seq; lia).
    rewrite length_fmap, length_seq, Nat.sub_diag.
    rewrite (drop_S a y n Hy). simpl. by rewrite <- app_assoc.
Qed.

Lemma foldl_insert_malloc {A : Type} (f : nat -> option A) (n : nat) :
  foldl (fun a x => <[x := f x]> a) (malloc n) (seq 0 n) = f <$> seq 0 n.
Proof.
  unfold malloc.
  rewrite foldl_insert_seq by (rewrite length_replicate; lia).
  rewrite drop_ge by (rewrite length_replicate; lia).
  apply app_nil_r.
Qed.


(** *** strlen and the words sscanf stores *)

Lemma strlen_cons ch buf :
  strlen (Some ch :: buf) = if Ascii.eqb ch NUL then O else S (strlen buf).
Proof. reflexivity. Qed.

(** Below [strlen], every cell holds a byte other than NUL. *)
Lemma strlen_lookup buf x :
  (x < strlen buf)%nat ->
  exists ch, buf !! x = Some (Some ch) /\ ch <> NUL.
Proof.
  revert x. induction buf as [|[ch|] buf IH]; intros x Hx;
    [simpl in Hx; lia| |simpl in Hx; lia].
  rewrite strlen_cons in Hx.
  destruct (Ascii.eqb ch NUL) eqn:E; [lia|].
  destruct x as [|x].
  - exists ch. split; [done|]. by apply Ascii.eqb_neq.
  - apply IH. lia.
Qed.

Lemma strlen_terminated w tail :
  (strlen ((Some <$> (w ++ [NUL])) ++ tail) <= length w)%nat.
Proof.
  induction w as [|ch w IH].
  - reflexivity.
  - change (strlen (Some ch :: (Some <$> (w ++ [NUL])) ++ tail)
            <= S (length w))%nat.
    rewrite strlen_cons. destruct (Ascii.eqb ch NUL); lia.
Qed.

Lemma strlen_store_word_le w buf : (strlen (store_word w buf) <= length w)%nat.
Proof. apply strlen_terminated. Qed.

Lemma lookup_store_word w buf x ch :
  w !! x = Some ch -> store_word w buf !! x = Some (Some ch).
Proof.
  intros Hx. unfold store_word.
  pose proof (lookup_lt_Some _ _ _ Hx) as Hlt.
  rewrite lookup_app_l by (rewrite length_fmap, length_app; simpl; lia).
  rewrite list_lookup_fmap, lookup_app_l by done.
  by rewrite Hx.
Qed.

Lemma load_store_word w buf x ch :
  w !! x = Some ch -> load (store_word w buf) x = Some ch.
Proof.
  intros Hx. unfold load. by rewrite (lookup_store_word _ _ _ _ Hx).
Qed.

(** Below its [strlen], a block that [%s] wrote holds the word. *)
Lemma strlen_store_word_lookup w buf x :
  (x < strlen (store_word w buf))%nat ->
  exists ch, w !! x = Some ch /\ load (store_word w buf) x = Some ch.
Proof.
  intros Hx. pose proof (strlen_store_word_le w buf).
  destruct (lookup_lt_is_Some_2 w x) as [ch Hch]; [lia|].
  exists ch. split; [done|]. by apply load_store_word.
Qed.

Lemma length_scan_words n s : (length (scan_words n s) <= n)%nat.
Proof.
  revert s. induction n as [|n IH]; intros s; simpl; [done|].
  destruct (scan_s s) as [[w r]|]; simpl; [|lia].
  specialize (IH r). lia.
Qed.

(** [sscanf] yields 6 exactly when six words were assigned. *)
Lemma sscanf_result_6 words :
  sscanf_result words = 6 <-> length words = 6%nat.
Proof.
  unfold sscanf_result. destruct words; simpl; split; lia.
Qed.

(** *** The two loops *)

Section ReadTestcase.
Variable normalize : ascii -> Z.
Variable line_size : nat -> nat.

(** The loop over the read updates five arrays side by side and leaves
    the rest of the structure alone. *)
Lemma read_loop_fields q' i' d' c' (l : list nat) (tc : testcase) :
  foldl (fun s x => read_body normalize q' i' d' c' x s) tc l =
  {| rslen := rslen tc;
     haplen := haplen tc;
     q := foldl (fun a x =>
            <[x := (fun v => if v <? 6 then 6 else v)
                     <$> (normalize <$> load q' x)]> a) (q tc) l;
     i := foldl (fun a x => <[x := normalize <$> load i' x]> a) (i tc) l;
     d := foldl (fun a x => <[x := normalize <$> load d' x]> a) (d tc) l;
     c := foldl (fun a x => <[x := normalize <$> load c' x]> a) (c tc) l;
     hap := hap tc;
     rs := rs tc;
     ihap := ihap tc;
     irs := foldl (fun a x => <[x := char_to_int <$> load (rs tc) x]> a)
                  (irs tc) l |}.
Proof.
  revert tc. induction l as [|x l IH]; intros tc.
  - by destruct tc.
  - simpl. by rewrite IH.
Qed.

Lemma hap_loop_fields (l : list nat) (tc : testcase) :
  foldl (fun s x => hap_body x s) tc l =
  {| rslen := rslen tc;
     haplen := haplen tc;
     q := q tc; i := i tc; d := d tc; c := c tc;
     hap := hap tc;
     rs := rs tc;
     ihap := foldl (fun a x => <[x := char_to_int <$> load (hap tc) x]> a)
                   (ihap tc) l;
     irs := irs tc |}.
Proof.
  revert tc. induction l as [|x l IH]; intros tc.
  - by destruct tc.
  - simpl. by rewrite IH.
Qed.

(** *** The three ways through read_testcase *)

(** Exhausted stream: -1, nothing touched. *)
Lemma read_testcase_eof tc :
  read_testcase normalize line_size tc [] = (-1, tc, []).
Proof. reflexivity. Qed.

(** Fewer than six words: -1 after the first eight allocations and the
    assignments that [sscanf] did make. *)
Lemma read_testcase_malformed tc stdin line rest :
  getline stdin = Some (line, rest) ->
  (length (scan_words 6 (cstring line)) < 6)%nat ->
  let size := line_size (length line) in
  let words := scan_words 6 (cstring line) in
  read_testcase normalize line_size tc stdin =
  (-1,
   {| rslen := rslen tc;
      haplen := haplen tc;
      q := q tc; i := i tc; d := d tc; c := c tc;
      hap := assigned words 0 (malloc size);
      rs := assigned words 1 (malloc size);
      ihap := malloc size;
      irs := malloc size |},
   rest).
Proof.
  intros Hline Hwords size words. unfold read_testcase. rewrite Hline.
  fold words. fold size.
  destruct (sscanf_result words =? 6) eqn:E; [|reflexivity].
  apply Z.eqb_eq, sscanf_result_6 in E. unfold words in E. lia.
Qed.

(** Six words: 0, and every field of the structure is set. *)
Lemma read_testcase_success tc stdin line rest wh wr wq wi wd wc :
  getline stdin = Some (line, rest) ->
  scan_words 6 (cstring line) = [wh; wr; wq; wi; wd; wc] ->
  let size := line_size (length line) in
  let hap' := store_word wh (malloc size) in
  let rs' := store_word wr (malloc size) in
  let haplen' := to_int (Z.of_nat (strlen hap')) in
  let rslen' := to_int (Z.of_nat (strlen rs')) in
  read_testcase normalize line_size tc stdin =
  (0,
   {| rslen := rslen';
      haplen := haplen';
      q := (fun x => (fun v => if v <? 6 then 6 else v)
                       <$> (normalize <$> load (store_word wq (malloc size)) x))
             <$> seq 0 (Z.to_nat rslen');
      i := (fun x => normalize <$> load (store_word wi (malloc size)) x)
             <$> seq 0 (Z.to_nat rslen');
      d := (fun x => normalize <$> load (store_word wd (malloc size)) x)
             <$> seq 0 (Z.to_nat rslen');
      c := (fun x => normalize <$> load (store_word wc (malloc size)) x)
             <$> seq 0 (Z.to_nat rslen');
      hap := hap';
      rs := rs';
      ihap := (fun x => char_to_int <$> load hap' x)
                <$> seq 0 (Z.to_nat haplen');
      irs := (fun x => char_to_int <$> load rs' x)
               <$> seq 0 (Z.to_nat rslen') |},
   rest).
Proof.
  intros Hline Hwords size hap' rs' haplen' rslen'.
  unfold read_testcase. rewrite Hline, Hwords.
  change (sscanf_result [wh; wr; wq; wi; wd; wc] =? 6) with true.
  cbv beta iota zeta delta [negb assigned].
  change ([wh; wr; wq; wi; wd; wc] !! 0%nat) with (Some wh).
  change ([wh; wr; wq; wi; wd; wc] !! 1%nat) with (Some wr).
  change ([wh; wr; wq; wi; wd; wc] !! 2%nat) with (Some wq).
  change ([wh; wr; wq; wi; wd; wc] !! 3%nat) with (Some wi).
  change ([wh; wr; wq; wi; wd; wc] !! 4%nat) with (Some wd).
  change ([wh; wr; wq; wi; wd; wc] !! 5%nat) with (Some wc).
  cbv beta iota.
  fold size. fold hap'. fold rs'.
  cbn [hap rs]. fold haplen'. fold rslen'.
  unfold for_upto.
  rewrite read_loop_fields. cbn [rslen haplen q i d c hap rs ihap irs].
  rewrite hap_loop_fields. cbn [rslen haplen q i d c hap rs ihap irs].
  by rewrite !foldl_insert_malloc.
Qed.

(** A call that returns 0 read a line and was assigned six words. *)
Lemma read_testcase_0_inv tc stdin :
  result (read_testcase normalize line_size tc stdin) = 0 ->
  exists line rest wh wr wq wi wd wc,
    getline stdin = Some (line, rest) /\
    scan_words 6 (cstring line) = [wh; wr; wq; wi; wd; wc].
Proof.
  intros Hres.
  destruct (getline stdin) as [[line rest]|] eqn:Hline.
  - destruct (decide (length (scan_words 6 (cstring line)) < 6)%nat)
      as [Hlt|Hge].
    + rewrite (read_testcase_malformed tc _ _ _ Hline Hlt) in Hres.
      discriminate.
    + pose proof (length_scan_words 6 (cstring line)) as Hle.
      destruct (scan_words 6 (cstring line))
        as [|wh [|wr [|wq [|wi [|wd [|wc [|]]]]]]] eqn:Hwords;
        simpl in Hge, Hle; try lia.
      by exists line, rest, wh, wr, wq, wi, wd, wc.
  - unfold read_testcase in Hres. rewrite Hline in Hres. discriminate.
Qed.

End ReadTestcase.

(** *** Words hold no NUL, so [strlen] is their length *)

Lemma elem_of_cstring ch s : ch ∈ cstring s -> ch <> NUL.
Proof.
  induction s as [|a s IH]; simpl; [by intros ?%elem_of_nil|].
  destruct (Ascii.eqb a NUL) eqn:E; [by intros ?%elem_of_nil|].
  intros [->|Hin]%elem_of_cons; [by apply Ascii.eqb_neq|by apply IH].
Qed.

Lemma elem_of_skip_space ch s : ch ∈ skip_space s -> ch ∈ s.
Proof.
  induction s as [|a s IH]; simpl; [done|].
  destruct (isspace a); [|done].
  intros Hin. apply elem_of_cons. right. by apply IH.
Qed.

Lemma elem_of_take_word ch s :
  ch ∈ (take_word s).1 \/ ch ∈ (take_word s).2 -> ch ∈ s.
Proof.
  induction s as [|a s IH]; simpl.
  - by intros [?%elem_of_nil|?%elem_of_nil].
  - destruct (isspace a); simpl.
    + by intros [?%elem_of_nil|?].
    + destruct (take_word s) as [w r]; simpl in *.
      intros [[->|Hin]%elem_of_cons|Hin]; apply elem_of_cons; auto.
Qed.

Lemma elem_of_scan_words n s w ch :
  w ∈ scan_words n s -> ch ∈ w -> ch ∈ s.
Proof.
  revert s. induction n as [|n IH]; intros s; simpl;
    [by intros ?%elem_of_nil|].
  unfold scan_s. destruct (skip_space s) as [|a s'] eqn:Hs;
    [by intros ?%elem_of_nil|].
  destruct (take_word (a :: s')) as [w' r] eqn:Hw.
  intros [->|Hin]%elem_of_cons Hch; apply elem_of_skip_space; rewrite Hs.
  - apply elem_of_take_word. rewrite Hw. by left.
  - apply elem_of_take_word. rewrite Hw. right. by apply (IH r).
Qed.



(** *** The words fit the blocks *)







End IngestFacts.

(** ** What read_testcase guarantees *)

Module IngestClaims.
Import Ingest IngestFacts.


Section ReadTestcase.
Variable normalize : ascii -> Z.
Variable line_size : nat -> nat.

(** C2, as the code has it: a line with fewer than six words makes
    [read_testcase] return -1, and so does an exhausted stream, whatever
    the caller's structure; the value returned is the same in both
    cases. *)
Theorem read_testcase_failure_values tc tc_eof stdin line rest :
  getline stdin = Some (line, rest) ->
  (length (scan_words 6 (cstring line)) < 6)%nat ->
  result (read_testcase normalize line_size tc stdin) = -1 /\
  result (read_testcase normalize line_size tc_eof []) = -1 /\
  result (read_testcase normalize line_size tc stdin) = result (read_testcase normalize line_size tc_eof []).
Proof.
  intros Hline Hwords.
  rewrite (read_testcase_malformed _ _ tc _ _ _ Hline Hwords).
  by rewrite read_testcase_eof.
Qed.




End ReadTestcase.

(** *** The functions run on lines of text *)

(** The line of the specification's example: two bases, every score ['!']. *)
Example read_testcase_AC_GT :
  read_testcase phred33 line_size_min empty_testcase
                (text "AC GT !! !! !! !!") =
  (0,
   {| rslen := 2; haplen := 2;
      q := [Some 6; Some 6];
      i := [Some 0; Some 0];
      d := [Some 0; Some 0];
      c := [Some 0; Some 0];
      hap := (Some <$> ["A"; "C"; NUL]%char) ++ replicate 16 None;
      rs := (Some <$> ["G"; "T"; NUL]%char) ++ replicate 16 None;
      ihap := [Some 65; Some 67];
      irs := [Some 71; Some 84] |},
   []).
Proof. reflexivity. Qed.

Lemma read_testcase_failure_values_witness :
  result (read_testcase phred33 line_size_min empty_testcase (text "AC GT"))
  = result (read_testcase phred33 line_size_min empty_testcase []).
Proof.
  apply (read_testcase_failure_values phred33 line_size_min
           empty_testcase empty_testcase (text "AC GT") (text "AC GT") []).
  - reflexivity.
  - vm_compute. lia.
Defined.

(** C2 (fails on the code): the line ["AC GT"] has two words, and the call
    on it returns the very value, -1, that a call on the exhausted stream
    returns; the caller cannot tell the two apart by it. *)
Lemma malformed_result_equals_eof_result :
  getline (text "AC GT") = Some (text "AC GT", []) /\
  scan_words 6 (cstring (text "AC GT")) = ["A"; "C"]%char :: ["G"; "T"]%char :: [] /\
  getline [] = None /\
  result (read_testcase phred33 line_size_min empty_testcase (text "AC GT"))
  = -1 /\
  result (read_testcase phred33 line_size_min empty_testcase []) = -1 /\
  ~ (result (read_testcase phred33 line_size_min empty_testcase (text "AC GT"))
     <> result (read_testcase phred33 line_size_min empty_testcase [])).
Proof. repeat split. intros Hne. by apply Hne. Qed.





End IngestClaims.

(** ** More on ConvertChar *)

Module ConvertCharMore.
Import ConvertChar ConvertCharFacts.

Lemma to_uint8_range b : 0 <= to_uint8 b < 256.
Proof. unfold to_uint8. apply Z.mod_pos_bound. lia. Qed.

Lemma to_uint8_ord ch : to_uint8 (ord ch) = ord ch.
Proof.
  unfold to_uint8, ord. apply Z.mod_small.
  pose proof (N_ascii_bounded ch). lia.
Qed.

Lemma to_uint8_char_to_int ch : to_uint8 (char_to_int ch) = ord ch.
Proof.
  unfold to_uint8, char_to_int.
  assert (0 <= ord ch < 256)
    by (unfold ord; pose proof (N_ascii_bounded ch); lia).
  destruct (Z.ltb_spec (ord ch) 128).
  - apply Z.mod_small. lia.
  - replace (ord ch - 256) with (ord ch + (-1) * 256) by lia.
    rewrite Z.mod_add by lia. apply Z.mod_small. lia.
Qed.

(** X1: any positive number of calls of [init()] leaves the table exactly
    as one call does, whatever the table held before. *)
Theorem init_times_is_init (n : nat) (t : list Z) :
  (0 < n)%nat -> init_times n t = init t.
Proof.
  intros Hn. destruct n as [|n]; [lia|]. apply init_times_succ.
Qed.

Lemma init_times_is_init_witness :
  init_times 3 conversionTable0 = init conversionTable0.
Proof. apply (init_times_is_init 3 conversionTable0). lia. Defined.

(** X2: [init()] writes the entries of A, C, T, G and N and nothing else:
    the table keeps its size, and every other byte reads as before. *)
Theorem init_frame (t : list Z) (b : Z) :
  to_uint8 b <> ord "A" -> to_uint8 b <> ord "C" -> to_uint8 b <> ord "T" ->
  to_uint8 b <> ord "G" -> to_uint8 b <> ord "N" ->
  length (init t) = length t /\ get (init t) b = get t b.
Proof.
  intros HA HC HT HG HN. split; [apply length_init|].
  by apply get_init_other.
Qed.

Lemma init_frame_witness :
  length (init (replicate TABLE_SIZE 9)) = length (replicate TABLE_SIZE 9) /\
  get (init (replicate TABLE_SIZE 9)) (ord "B")
  = get (replicate TABLE_SIZE 9) (ord "B").
Proof. apply (init_frame (replicate TABLE_SIZE 9) (ord "B")); discriminate. Defined.

(** X3: on a table of the declared size, [get] has no defined result for
    exactly one byte, 255. *)
Theorem get_None_iff (t : list Z) (b : Z) :
  length t = TABLE_SIZE ->
  (get t b = None <-> to_uint8 b = 255).
Proof.
  intros Hlen. unfold get. rewrite lookup_ge_None, Hlen. unfold TABLE_SIZE.
  pose proof (to_uint8_range b). lia.
Qed.

Lemma get_None_iff_witness :
  get conversionTable0 (-1) = None <-> to_uint8 (-1) = 255.
Proof. apply (get_None_iff conversionTable0 (-1)). reflexivity. Defined.

(** X4: once [init()] has run on the zero-initialised table, every byte
    but 255 has a code below [NUM_DISTINCT_CHARS], and the code is
    [AMBIG_CHAR] for the byte N only. *)
Theorem get_code_range (n : nat) (b : Z) :
  (0 < n)%nat ->
  to_uint8 b <> 255 ->
  exists v, get (init_times n conversionTable0) b = Some v /\
            0 <= v < NUM_DISTINCT_CHARS /\
            (v = AMBIG_CHAR <-> to_uint8 b = ord "N").
Proof.
  intros Hn Hb. destruct n as [|n]; [lia|]. rewrite init_times_succ.
  pose proof (to_uint8_range b) as Hr.
  assert (Hget : get (init conversionTable0) b
                 = get (init conversionTable0) (to_uint8 b)).
  { unfold get, to_uint8. by rewrite Z.mod_mod by lia. }
  destruct (get_init_letters conversionTable0 eq_refl)
    as (HA & HC & HT & HG & HN).
  unfold NUM_DISTINCT_CHARS, AMBIG_CHAR.
  destruct (decide (to_uint8 b = ord "A")) as [E|NA].
  { exists 0. rewrite Hget, E, HA.
    repeat split; try lia; intros; discriminate. }
  destruct (decide (to_uint8 b = ord "C")) as [E|NC].
  { exists 1. rewrite Hget, E, HC.
    repeat split; try lia; intros; discriminate. }
  destruct (decide (to_uint8 b = ord "T")) as [E|NT].
  { exists 2. rewrite Hget, E, HT.
    repeat split; try lia; intros; discriminate. }
  destruct (decide (to_uint8 b = ord "G")) as [E|NG].
  { exists 3. rewrite Hget, E, HG.
    repeat split; try lia; intros; discriminate. }
  destruct (decide (to_uint8 b = ord "N")) as [E|NN].
  { exists 4. rewrite Hget, E, HN. repeat split; lia. }
  exists 0. rewrite get_init_other by assumption.
  split.
  - unfold get, conversionTable0, TABLE_SIZE. apply lookup_replicate_2. lia.
  - split; [lia|]. split; [lia|]. intros E. by destruct NN.
Qed.

Lemma get_code_range_witness :
  exists v, get (init_times 1 conversionTable0) (ord "N") = Some v /\
            0 <= v < NUM_DISTINCT_CHARS /\
            (v = AMBIG_CHAR <-> to_uint8 (ord "N") = ord "N").
Proof. apply (get_code_range 1 (ord "N")); [lia|discriminate]. Defined.

(** X5: [get] applied to a [char] that was widened to [int], as
    [read_testcase] stores them, reads the entry of the unsigned byte: the
    sign extension of bytes from 128 on is undone by the conversion to
    [uint8_t]. *)
Theorem get_char_to_int (t : list Z) (ch : ascii) :
  get t (char_to_int ch) = t !! N.to_nat (N_of_ascii ch) /\
  get t (char_to_int ch) = get t (ord ch).
Proof.
  unfold get. rewrite to_uint8_char_to_int, to_uint8_ord.
  split; [|done]. unfold ord. by rewrite <- Z_N_nat, N2Z.id.
Qed.

End ConvertCharMore.

(** ** More on the numeric contexts *)

Module CtxMore.
Import Ctx CtxFacts.

(** A check over all pairs of indices below 128, by evaluation. *)
Lemma pairs_below_128 (P : Z -> Z -> bool) :
  forallb (fun x => forallb (fun y => implb (x <? y) (P x y)) (seqZ 0 128))
          (seqZ 0 128) = true ->
  forall x y, 0 <= x -> x < y -> y < 128 -> P x y = true.
Proof.
  intros Hall x y H0 Hxy Hy.
  rewrite forallb_forall in Hall.
  assert (Hx : In x (seqZ 0 128)) by (apply list_elem_of_In, elem_of_seqZ; lia).
  specialize (Hall x Hx). rewrite forallb_forall in Hall.
  assert (Hy' : In y (seqZ 0 128)) by (apply list_elem_of_In, elem_of_seqZ; lia).
  specialize (Hall y Hy').
  destruct (Z.ltb_spec x y); [exact Hall|lia].
Qed.

Lemma phred_exponent_decreasing_64 x y :
  0 <= x -> x < y -> y < 128 ->
  SFltb (phred_exponent prec64 emax64 y) (phred_exponent prec64 emax64 x) = true.
Proof.
  apply (pairs_below_128 (fun x y =>
    SFltb (phred_exponent prec64 emax64 y) (phred_exponent prec64 emax64 x))).
  vm_compute. reflexivity.
Qed.

Lemma phred_exponent_decreasing_32 x y :
  0 <= x -> x < y -> y < 128 ->
  SFltb (phred_exponent prec32 emax32 y) (phred_exponent prec32 emax32 x) = true.
Proof.
  apply (pairs_below_128 (fun x y =>
    SFltb (phred_exponent prec32 emax32 y) (phred_exponent prec32 emax32 x))).
  vm_compute. reflexivity.
Qed.

(** X6: in both constructors the initial constant is a finite number, the
    exact power of two: 2^1020 in [double], 2^120 in [float]. *)
Theorem INITIAL_CONSTANT_values
        (pow : spec_float -> spec_float -> spec_float)
        (log10 : spec_float -> spec_float)
        (powf : spec_float -> spec_float -> spec_float)
        (log10f : spec_float -> spec_float) :
  exists vd vf : Q,
    SFvalue (INITIAL_CONSTANT (Context_double pow log10)) = Some vd /\
    (vd == Qpower (2 # 1) 1020)%Q /\
    SFvalue (INITIAL_CONSTANT (Context_float powf log10f)) = Some vf /\
    (vf == Qpower (2 # 1) 120)%Q.
Proof.
  eexists _, _. split; [reflexivity|]. split; [vm_compute; reflexivity|].
  split; [reflexivity|]. vm_compute. reflexivity.
Qed.

(** X7: the exponents [-x / 10] that the two loops hand to the power
    function, rounded in their own format, are never above zero and
    strictly decrease as [x] runs from 0 to 127; the first one is the
    negative zero. *)
Theorem phred_exponent_order (x y : Z) :
  0 <= x -> x < y -> y < 128 ->
  SFltb (phred_exponent prec64 emax64 y) (phred_exponent prec64 emax64 x) = true /\
  SFltb (phred_exponent prec32 emax32 y) (phred_exponent prec32 emax32 x) = true /\
  SFleb (phred_exponent prec64 emax64 x) (S754_zero false) = true /\
  SFleb (phred_exponent prec32 emax32 x) (S754_zero false) = true /\
  phred_exponent prec64 emax64 0 = S754_zero true /\
  phred_exponent prec32 emax32 0 = S754_zero true.
Proof.
  intros H0 Hxy Hy.
  split; [by apply phred_exponent_decreasing_64|].
  split; [by apply phred_exponent_decreasing_32|].
  assert (Hle : forall P : Z -> bool,
             forallb P (seqZ 0 128) = true -> P x = true).
  { intros P HP. rewrite forallb_forall in HP. apply HP.
    apply list_elem_of_In, elem_of_seqZ. lia. }
  split.
  { apply (Hle (fun x => SFleb (phred_exponent prec64 emax64 x)
                               (S754_zero false))).
    vm_compute. reflexivity. }
  split.
  { apply (Hle (fun x => SFleb (phred_exponent prec32 emax32 x)
                               (S754_zero false))).
    vm_compute. reflexivity. }
  split; reflexivity.
Qed.

Lemma phred_exponent_order_witness :
  SFltb (phred_exponent prec64 emax64 127) (phred_exponent prec64 emax64 126)
  = true.
Proof. apply (phred_exponent_order 126 127); lia. Defined.

(** X8: entry [x] of either table is the library's power of ten at the
    exponent [-x / 10]; so if that power function is strictly increasing on
    the 128 exponents of the loop, the table is strictly decreasing. *)
Theorem ph2pr_decreasing
        (pow : spec_float -> spec_float -> spec_float)
        (log10 : spec_float -> spec_float)
        (powf : spec_float -> spec_float -> spec_float)
        (log10f : spec_float -> spec_float) :
  (forall x y, 0 <= x < 128 -> 0 <= y < 128 ->
     SFltb (phred_exponent prec64 emax64 y) (phred_exponent prec64 emax64 x) = true ->
     SFltb (pow (of_Z prec64 emax64 10) (phred_exponent prec64 emax64 y))
           (pow (of_Z prec64 emax64 10) (phred_exponent prec64 emax64 x)) = true) ->
  (forall x y, 0 <= x < 128 -> 0 <= y < 128 ->
     SFltb (phred_exponent prec32 emax32 y) (phred_exponent prec32 emax32 x) = true ->
     SFltb (powf (of_Z prec32 emax32 10) (phred_exponent prec32 emax32 y))
           (powf (of_Z prec32 emax32 10) (phred_exponent prec32 emax32 x)) = true) ->
  forall x y : nat, (x < y)%nat -> (y < 128)%nat ->
    (exists px py,
       ph2pr (Context_double pow log10) !! x = Some px /\
       ph2pr (Context_double pow log10) !! y = Some py /\
       px = pow (of_Z prec64 emax64 10)
                (phred_exponent prec64 emax64 (Z.of_nat x)) /\
       SFltb py px = true) /\
    (exists px py,
       ph2pr (Context_float powf log10f) !! x = Some px /\
       ph2pr (Context_float powf log10f) !! y = Some py /\
       px = powf (of_Z prec32 emax32 10)
                 (phred_exponent prec32 emax32 (Z.of_nat x)) /\
       SFltb py px = true).
Proof.
  intros Hpow Hpowf x y Hxy Hy. split.
  - eexists _, _.
    split; [apply ph2pr_double_lookup; lia|].
    split; [apply ph2pr_double_lookup; lia|].
    split; [reflexivity|].
    apply Hpow; [lia|lia|]. apply phred_exponent_decreasing_64; lia.
  - eexists _, _.
    split; [apply ph2pr_float_lookup; lia|].
    split; [apply ph2pr_float_lookup; lia|].
    split; [reflexivity|].
    apply Hpowf; [lia|lia|]. apply phred_exponent_decreasing_32; lia.
Qed.

Lemma ph2pr_decreasing_witness :
  exists px py,
    ph2pr (Context_double (fun _ e => e) id) !! 3%nat = Some px /\
    ph2pr (Context_double (fun _ e => e) id) !! 4%nat = Some py /\
    px = phred_exponent prec64 emax64 3 /\
    SFltb py px = true.
Proof.
  refine (proj1 (ph2pr_decreasing (fun _ e => e) id (fun _ e => e) id
                   _ _ 3%nat 4%nat _ _)).
  - intros x y _ _ H. exact H.
  - intros x y _ _ H. exact H.
  - lia.
  - lia.
Defined.

End CtxMore.

(** ** More on read_testcase *)

Module IngestMore.
Import Ingest IngestFacts.

(** *** getline *)

Lemma read_line_spec s l r :
  read_line s = (l, r) ->
  s = l ++ r /\
  (s <> [] -> l <> []) /\
  (forall k, l !! k = Some newline -> S k = length l) /\
  (last l = Some newline \/ r = []).
Proof.
  revert l r. induction s as [|a s IH]; intros l r H; simpl in H.
  - simplify_eq. repeat split; try done. by right.
  - destruct (Ascii.eqb a newline) eqn:E.
    + apply Ascii.eqb_eq in E. simplify_eq. repeat split; try done.
      * intros [|k] Hk; [done|]. by destruct k.
      * by left.
    + destruct (read_line s) as [l' r'] eqn:Hs. injection H as <- <-.
      destruct (IH l' r' eq_refl) as (Happ & _ & Hnl & Hlast).
      repeat split.
      * by rewrite Happ.
      * done.
      * intros [|k] Hk; [|simpl; f_equal; by apply Hnl].
        injection Hk as ->. by rewrite Ascii.eqb_refl in E.
      * destruct Hlast as [Hlast|Hr]; [left|by right].
        destruct l' as [|b l']; [done|]. exact Hlast.
Qed.


(** *** sscanf *)


Lemma cstring_app_NUL l1 l2 : cstring (l1 ++ NUL :: l2) = cstring l1.
Proof.
  induction l1 as [|a l1 IH].
  - reflexivity.
  - simpl. destruct (Ascii.eqb a NUL); [done|]. by rewrite IH.
Qed.

Lemma Forall_cstring (P : ascii -> Prop) s : Forall P s -> Forall P (cstring s).
Proof.
  induction 1 as [|a s Ha Hs IH]; simpl; [done|].
  destruct (Ascii.eqb a NUL); [done|]. by constructor.
Qed.

Lemma skip_space_all s :
  Forall (fun ch => isspace ch = true) s -> skip_space s = [].
Proof.
  induction 1 as [|a s Ha Hs IH]; simpl; [done|]. by rewrite Ha.
Qed.

Lemma scan_words_blank n s :
  Forall (fun ch => isspace ch = true) s -> scan_words n s = [].
Proof.
  intros Hs. destruct n as [|n]; [done|]. simpl. unfold scan_s.
  by rewrite skip_space_all.
Qed.

(** Fewer conversions assign a prefix of the words that more assign. *)
Lemma scan_words_take m n s :
  (m <= n)%nat -> scan_words m s = take m (scan_words n s).
Proof.
  revert n s. induction m as [|m IH]; intros n s Hmn; [done|].
  destruct n as [|n]; [lia|]. simpl.
  destruct (scan_s s) as [[w r]|]; [|done].
  simpl. f_equal. apply IH. lia.
Qed.

Lemma skip_space_head s a s' :
  skip_space s = a :: s' -> isspace a = false.
Proof.
  induction s as [|b s IH]; simpl; [done|].
  destruct (isspace b) eqn:E; [exact IH|]. by intros [= -> _].
Qed.

Lemma take_word_spec s :
  Forall (fun ch => isspace ch = false) (take_word s).1 /\
  (forall a s', s = a :: s' -> isspace a = false -> (take_word s).1 <> []).
Proof.
  induction s as [|a s [IH1 IH2]]; simpl.
  - split; [constructor|done].
  - destruct (isspace a) eqn:E; simpl.
    + split; [constructor|]. intros b s' [= <- <-] Hb. congruence.
    + destruct (take_word s) as [w r]; simpl in *.
      split; [by constructor|done].
Qed.

(** Every word that [%s] assigns is non-empty and free of white space. *)
Lemma scanned_word_spec n s w :
  w ∈ scan_words n s ->
  w <> [] /\ Forall (fun ch => isspace ch = false) w.
Proof.
  revert s. induction n as [|n IH]; intros s; simpl;
    [by intros ?%elem_of_nil|].
  unfold scan_s. destruct (skip_space s) as [|a s'] eqn:Hs;
    [by intros ?%elem_of_nil|].
  pose proof (take_word_spec (a :: s')) as [Hsp Hne].
  destruct (take_word (a :: s')) as [w' r] eqn:Hw. simpl in Hsp, Hne.
  intros [->|Hin]%elem_of_cons; [|by apply (IH r)].
  split; [|done]. apply (Hne a s' eq_refl). by apply (skip_space_head s _ s').
Qed.








Lemma char_to_int_range ch : -128 <= char_to_int ch <= 127.
Proof.
  unfold char_to_int.
  assert (0 <= ord ch < 256)
    by (unfold ord; pose proof (N_ascii_bounded ch); lia).
  destruct (Z.ltb_spec (ord ch) 128); lia.
Qed.

Lemma ord_inj a b : ord a = ord b -> a = b.
Proof.
  unfold ord. intros H%N2Z.inj.
  by rewrite <- (ascii_N_embedding a), <- (ascii_N_embedding b), H.
Qed.

Lemma char_to_int_NUL ch : char_to_int ch = 0 -> ch = NUL.
Proof.
  intros H. apply ord_inj. change (ord NUL) with 0.
  unfold char_to_int in H.
  assert (0 <= ord ch < 256)
    by (unfold ord; pose proof (N_ascii_bounded ch); lia).
  destruct (Z.ltb_spec (ord ch) 128); lia.
Qed.

Lemma char_to_int_space ch :
  char_to_int ch = 32 \/ 9 <= char_to_int ch <= 13 -> isspace ch = true.
Proof.
  unfold char_to_int, isspace.
  assert (0 <= ord ch < 256)
    by (unfold ord; pose proof (N_ascii_bounded ch); lia).
  destruct (Z.ltb_spec (ord ch) 128); intros Hc;
    destruct (Z.eqb_spec (ord ch) 32); simpl; try done;
    destruct (Z.leb_spec 9 (ord ch)); simpl; try lia;
    destruct (Z.leb_spec (ord ch) 13); simpl; try done; lia.
Qed.

Lemma getline_inv stdin line rest :
  getline stdin = Some (line, rest) ->
  stdin = line ++ rest /\
  line <> [] /\
  (forall k, line !! k = Some newline -> S k = length line) /\
  (last line = Some newline \/ rest = []).
Proof.
  unfold getline. destruct stdin as [|a s]; [done|].
  intros H. assert (H' : read_line (a :: s) = (line, rest)) by congruence.
  destruct (read_line_spec _ _ _ H') as (Happ & Hne & Hnl & Hlast).
  repeat split; try done. by apply Hne.
Qed.

(** X9: a line that [getline] reads is a non-empty prefix of the stream;
    a newline can only be its last byte, and it does end in one unless the
    stream ends with it. *)
Theorem getline_split stdin line rest :
  getline stdin = Some (line, rest) ->
  stdin = line ++ rest /\
  line <> [] /\
  (forall k, line !! k = Some newline -> S k = length line) /\
  (last line = Some newline \/ rest = []).
Proof. apply getline_inv. Qed.

Lemma getline_split_witness :
  text "AC GT" ++ text "x" = text "AC GT" ++ text "x" /\
  text "AC GT" <> [] /\
  (forall k, text "AC GT" !! k = Some newline -> S k = length (text "AC GT")) /\
  (last (text "AC GT") = Some newline \/ text "x" = []).
Proof.
  apply (getline_split (text "AC GT" ++ text "x") (text "AC GT") (text "x")).
  reflexivity.
Defined.

Section ReadTestcase.
Variable normalize : ascii -> Z.
Variable line_size : nat -> nat.

(** X10: a call that finds a line takes exactly that line off the stream,
    whether the line parses or not, so the stream gets strictly shorter;
    a call on the exhausted stream hands back the stream and the caller's
    structure untouched. *)
Theorem read_testcase_consumes tc stdin :
  let r := read_testcase normalize line_size tc stdin in
  match getline stdin with
  | Some (line, rest) =>
      stdin_after r = rest /\ stdin = line ++ stdin_after r /\
      (length (stdin_after r) < length stdin)%nat
  | None => r = (-1, tc, stdin) /\ stdin = []
  end.
Proof.
  intros r. destruct (getline stdin) as [[line rest]|] eqn:Hline.
  - assert (Hrest : stdin_after r = rest).
    { unfold r, read_testcase. rewrite Hline.
      by destruct (negb _). }
    destruct (getline_inv _ _ _ Hline) as (Happ & Hne & _).
    rewrite Hrest. split; [done|]. split; [done|].
    rewrite Happ, length_app. destruct line; [done|]. simpl. lia.
  - unfold r, read_testcase. rewrite Hline. split; [done|].
    by destruct stdin.
Qed.

Lemma read_testcase_result_cases tc stdin :
  let r := read_testcase normalize line_size tc stdin in
  (result r = 0 \/ result r = -1) /\
  (result r = 0 <->
   exists line rest,
     getline stdin = Some (line, rest) /\
     length (scan_words 6 (cstring line)) = 6%nat).
Proof.
  intros r. unfold r.
  destruct (getline stdin) as [[line rest]|] eqn:Hline.
  - destruct (decide (length (scan_words 6 (cstring line)) < 6)%nat)
      as [Hlt|Hge].
    + rewrite (read_testcase_malformed _ _ tc _ _ _ Hline Hlt).
      split; [by right|]. split; [done|].
      intros (l & r' & [= <- <-] & Hlen). lia.
    + pose proof (length_scan_words 6 (cstring line)) as Hle.
      destruct (scan_words 6 (cstring line))
        as [|wh [|wr [|wq [|wi [|wd [|wc [|]]]]]]] eqn:Hwords;
        simpl in Hge, Hle; try lia.
      rewrite (read_testcase_success _ _ tc _ _ _ _ _ _ _ _ _ Hline Hwords).
      split; [by left|]. split; [|done].
      intros _. exists line, rest. by rewrite Hwords.
  - unfold read_testcase. rewrite Hline.
    split; [by right|]. split; [done|]. by intros (l & r' & [=] & _).
Qed.

(** X11: the value returned is 0 or -1, and it is 0 exactly when a line
    was read and [sscanf] assigned six words from it. *)
Theorem read_testcase_result tc stdin :
  let r := read_testcase normalize line_size tc stdin in
  (result r = 0 \/ result r = -1) /\
  (result r = 0 <->
   exists line rest,
     getline stdin = Some (line, rest) /\
     length (scan_words 6 (cstring line)) = 6%nat).
Proof. apply read_testcase_result_cases. Qed.

(** X12: a line of white space only (a bare newline included) is turned
    down with -1, the value of the end of input, and nothing is stored in
    the blocks allocated for [hap] and [rs]. *)
Theorem read_testcase_blank_line tc stdin line rest :
  getline stdin = Some (line, rest) ->
  Forall (fun ch => isspace ch = true) line ->
  let r := read_testcase normalize line_size tc stdin in
  result r = -1 /\
  hap (tc_after r) = malloc (line_size (length line)) /\
  rs (tc_after r) = malloc (line_size (length line)).
Proof.
  intros Hline Hblank r.
  assert (Hw : scan_words 6 (cstring line) = []).
  { apply scan_words_blank. by apply Forall_cstring. }
  unfold r. rewrite (read_testcase_malformed _ _ tc _ _ _ Hline)
    by (rewrite Hw; simpl; lia).
  by rewrite Hw.
Qed.

(** X13: words after the sixth are not looked at: a line on which more
    conversions would assign six words or more is accepted, with its
    first six words. *)
Theorem read_testcase_extra_words tc stdin line rest n :
  getline stdin = Some (line, rest) ->
  (6 <= length (scan_words n (cstring line)))%nat ->
  result (read_testcase normalize line_size tc stdin) = 0 /\
  scan_words 6 (cstring line) = take 6 (scan_words n (cstring line)).
Proof.
  intros Hline Hn.
  pose proof (length_scan_words n (cstring line)) as Hle.
  assert (Htake : scan_words 6 (cstring line)
                  = take 6 (scan_words n (cstring line)))
    by (apply scan_words_take; lia).
  split; [|done].
  apply (read_testcase_result_cases tc stdin). exists line, rest.
  split; [done|]. rewrite Htake, length_take. lia.
Qed.

(** X14: a successful call overwrites every field: what it returns does
    not depend on what the caller's structure held before. *)
Theorem read_testcase_overwrites tc1 tc2 stdin :
  result (read_testcase normalize line_size tc1 stdin) = 0 ->
  read_testcase normalize line_size tc1 stdin
  = read_testcase normalize line_size tc2 stdin.
Proof.
  intros Hres.
  destruct (read_testcase_0_inv _ _ _ _ Hres)
    as (line & rest & wh & wr & wq & wi & wd & wc & Hline & Hwords).
  by rewrite !(read_testcase_success _ _ _ _ _ _ _ _ _ _ _ _ Hline Hwords).
Qed.

(** X15: after a successful call the four score arrays have [rslen]
    entries each. *)
Theorem read_testcase_score_lengths tc stdin :
  result (read_testcase normalize line_size tc stdin) = 0 ->
  let tc' := tc_after (read_testcase normalize line_size tc stdin) in
  length (q tc') = Z.to_nat (rslen tc') /\
  length (i tc') = Z.to_nat (rslen tc') /\
  length (d tc') = Z.to_nat (rslen tc') /\
  length (c tc') = Z.to_nat (rslen tc').
Proof.
  intros Hres.
  destruct (read_testcase_0_inv _ _ _ _ Hres)
    as (line & rest & wh & wr & wq & wi & wd & wc & Hline & Hwords).
  rewrite (read_testcase_success _ _ tc _ _ _ _ _ _ _ _ _ Hline Hwords).
  unfold tc_after. simpl. by rewrite !length_fmap, !length_seq.
Qed.

End ReadTestcase.

Section ReadTestcaseWords.
Variable normalize : ascii -> Z.
Variable line_size : nat -> nat.







(** X22: [sscanf] stops at the first NUL of the line although [getline]
    read past it: what follows a NUL byte takes no part in the decision,
    which is that of the bytes before it. *)
Theorem read_testcase_NUL_cut tc stdin l1 l2 rest :
  getline stdin = Some (l1 ++ NUL :: l2, rest) ->
  scan_words 6 (cstring (l1 ++ NUL :: l2)) = scan_words 6 (cstring l1) /\
  (result (read_testcase normalize line_size tc stdin) = 0 <->
   length (scan_words 6 (cstring l1)) = 6%nat).
Proof.
  intros Hline. rewrite cstring_app_NUL. split; [done|].
  destruct (read_testcase_result_cases normalize line_size tc stdin) as [_ Hiff].
  rewrite Hiff. split.
  - intros (l & r & Hl & Hlen). rewrite Hline in Hl.
    injection Hl as <- <-. by rewrite cstring_app_NUL in Hlen.
  - intros Hlen. exists (l1 ++ NUL :: l2), rest.
    by rewrite cstring_app_NUL.
Qed.

(** X23: the codes a successful call stores in [ihap] and [irs] are all
    defined, lie in the range of a signed [char], and are neither 0 nor
    the code of a white-space character. *)
Theorem read_testcase_code_range tc stdin :
  result (read_testcase normalize line_size tc stdin) = 0 ->
  let tc' := tc_after (read_testcase normalize line_size tc stdin) in
  forall x o, (ihap tc' !! x = Some o \/ irs tc' !! x = Some o) ->
    exists v, o = Some v /\ -128 <= v <= 127 /\ v <> 0 /\
              v <> 32 /\ ~ (9 <= v <= 13).
Proof.
  intros Hres.
  destruct (read_testcase_0_inv _ _ _ _ Hres)
    as (line & rest & wh & wr & wq & wi & wd & wc & Hline & Hwords).
  rewrite (read_testcase_success _ _ tc _ _ _ _ _ _ _ _ _ Hline Hwords).
  unfold tc_after. simpl.
  set (size := line_size (length line)).
  intros x o Hx.
  assert (Hch : exists w ch, w ∈ scan_words 6 (cstring line) /\ ch ∈ w /\
                             o = Some (char_to_int ch)).
  { rewrite Hwords. destruct Hx as [Hx|Hx].
    - apply list_lookup_fmap_Some in Hx as (k & -> & Hk).
      apply lookup_seq in Hk as [-> Hk]. simpl in Hk.
      pose proof (to_int_le (Z.of_nat (strlen (store_word wh (malloc size))))).
      destruct (strlen_store_word_lookup wh (malloc size) x)
        as (ch & Hw & Hload); [lia|].
      exists wh, ch. split; [by left|].
      split; [by apply list_elem_of_lookup_2 in Hw|].
      simpl. by rewrite Hload.
    - apply list_lookup_fmap_Some in Hx as (k & -> & Hk).
      apply lookup_seq in Hk as [-> Hk]. simpl in Hk.
      pose proof (to_int_le (Z.of_nat (strlen (store_word wr (malloc size))))).
      destruct (strlen_store_word_lookup wr (malloc size) x)
        as (ch & Hw & Hload); [lia|].
      exists wr, ch. split; [right; by left|].
      split; [by apply list_elem_of_lookup_2 in Hw|].
      simpl. by rewrite Hload. }
  destruct Hch as (w & ch & Hw & Hin & ->).
  exists (char_to_int ch). split; [done|].
  split; [apply char_to_int_range|].
  destruct (scanned_word_spec _ _ _ Hw) as [_ Hsp].
  rewrite Forall_forall in Hsp. specialize (Hsp ch Hin).
  assert (Hnul : ch <> NUL).
  { apply (elem_of_cstring ch line). by apply (elem_of_scan_words 6 _ w). }
  split; [intros H0; by apply Hnul, char_to_int_NUL|].
  split.
  - intros H32. rewrite char_to_int_space in Hsp; [done|by left].
  - intros H9. rewrite char_to_int_space in Hsp; [done|by right].
Qed.

End ReadTestcaseWords.

(** *** The theorems above at lines of text *)

Lemma read_testcase_blank_line_witness :
  let r := read_testcase phred33 line_size_min empty_testcase (text "  ") in
  result r = -1 /\
  hap (tc_after r) = malloc (line_size_min (length (text "  "))) /\
  rs (tc_after r) = malloc (line_size_min (length (text "  "))).
Proof.
  apply (read_testcase_blank_line phred33 line_size_min empty_testcase
           (text "  ") (text "  ") []).
  - reflexivity.
  - repeat constructor.
Defined.

Lemma read_testcase_extra_words_witness :
  result (read_testcase phred33 line_size_min empty_testcase
            (text "AC GT !! !! !! !! more words")) = 0 /\
  scan_words 6 (cstring (text "AC GT !! !! !! !! more words"))
  = take 6 (scan_words 8 (cstring (text "AC GT !! !! !! !! more words"))).
Proof.
  apply (read_testcase_extra_words phred33 line_size_min empty_testcase
           (text "AC GT !! !! !! !! more words")
           (text "AC GT !! !! !! !! more words") [] 8).
  - reflexivity.
  - vm_compute. lia.
Defined.

Lemma read_testcase_overwrites_witness :
  read_testcase phred33 line_size_min empty_testcase (text "AC GT !! !! !! !!")
  = read_testcase phred33 line_size_min
      (tc_after (read_testcase phred33 line_size_min empty_testcase
                   (text "ACGT ACGT 5555 !!!! !!!! !!!!")))
      (text "AC GT !! !! !! !!").
Proof.
  apply (read_testcase_overwrites phred33 line_size_min). reflexivity.
Defined.

Lemma read_testcase_score_lengths_witness :
  let tc' := tc_after (read_testcase phred33 line_size_min empty_testcase
                         (text "AC GTA 5I+ !!! !!! !!!")) in
  length (q tc') = Z.to_nat (rslen tc') /\
  length (i tc') = Z.to_nat (rslen tc') /\
  length (d tc') = Z.to_nat (rslen tc') /\
  length (c tc') = Z.to_nat (rslen tc').
Proof.
  apply (read_testcase_score_lengths phred33 line_size_min empty_testcase
           (text "AC GTA 5I+ !!! !!! !!!")).
  reflexivity.
Defined.







Lemma read_testcase_NUL_cut_witness :
  result (read_testcase phred33 line_size_min empty_testcase
            (["A"; "C"; " "; "G"; "T"; NUL]%char ++ text "!! !! !! !!")) = 0
  <-> length (scan_words 6 (cstring ["A"; "C"; " "; "G"; "T"]%char)) = 6%nat.
Proof.
  apply (read_testcase_NUL_cut phred33 line_size_min empty_testcase
           (["A"; "C"; " "; "G"; "T"; NUL]%char ++ text "!! !! !! !!")
           ["A"; "C"; " "; "G"; "T"]%char (text "!! !! !! !!") []).
  reflexivity.
Defined.

Lemma read_testcase_code_range_witness :
  let tc' := tc_after (read_testcase phred33 line_size_min empty_testcase
                         (text "AC GT !! !! !! !!")) in
  exists v, Some 67 = Some v /\ -128 <= v <= 127 /\ v <> 0 /\
            v <> 32 /\ ~ (9 <= v <= 13).
Proof.
  apply (read_testcase_code_range phred33 line_size_min empty_testcase
           (text "AC GT !! !! !! !!") eq_refl 1%nat (Some 67)).
  left. reflexivity.
Defined.

End IngestMore.
